(** * WeightedHistogram: a shallow embedding of weightedhistogram.go

    The code is embedded twice.

    The first embedding renders [float64] as the exact rationals [Q]: there
    is no NaN, no infinity and no rounding; comparisons of floats ([==],
    [>], [<], [<=]) are the numeric comparisons of [Q]; [int64(x)] is
    truncation toward zero; the constant [1e99] is the rational the Go
    constant denotes.  It carries the statements that rest on the control
    flow, on comparisons and on the copying of values, which the code shares
    with it.  It is no authority on rounded sums, products and quotients.

    The second embedding, the module [F64], renders [float64] as the
    binary64 numbers of the kernel, with their rounding.  It evaluates the
    code on given inputs where rounding decides, and carries the statements
    about the values the code computes.

    A run-time panic of the Go program (index out of range) is the result
    [None]. *)

From Stdlib Require Import List ZArith QArith Qround Qminmax Lia Lqa Bool Arith.
From Stdlib Require Import Permutation.
From Stdlib Require PrimFloat FloatOps SpecFloat Uint63.
Import ListNotations.

Local Open Scope Q_scope.

(** ** Data model *)

(** Modelled from the spec: the type [bin], which weightedhistogram.go uses
    and another file of the package declares.  A bin has a representative
    [value] and an accumulated mass [count], both [float64]; these are the
    two fields the code reads and writes. *)
Record bin : Set := mkbin { value : Q; count : Q }.

(** The zero value of [bin]. *)
Definition zero_bin : bin := mkbin 0 0.

Record WeightedHistogram : Set := mkWH {
  bins : list bin;
  maxbins : Z;
  total : Z;
  alpha : Q
}.

Definition NewWeightedHistogram (n : Z) (a : Q) : WeightedHistogram :=
  {| bins := []; maxbins := n; total := 0%Z; alpha := a |}.

(** ** Comparisons and conversions of the numeric types *)

Definition Qltb (x y : Q) : bool := negb (Qle_bool y x).

(** [int64(x)] for a float [x]: the fractional part is discarded. *)
Definition int64_of_float (x : Q) : Z := Z.quot (Qnum x) (Zpos (Qden x)).

(** [float64(z)] for an integer [z]. *)
Definition float_of_int64 (z : Z) : Q := inject_Z z.

(** The Go constant [1e99] as a [float64]: [0x1.d42aea2879f2ep+328], a little
    below [10^99]. *)
Definition sentinel_1e99 : Q := inject_Z (8236092143148846 * 2 ^ 276).

(** ** Decay *)

Definition ewma (existingVal newVal a : Q) : Q :=
  newVal * (1 - a) + existingVal * a.

(** [scaleDown_from i except bs a] is the loop of [scaleDown] over the bins
    [bs], whose first element has index [i]. *)
Fixpoint scaleDown_from (i except : nat) (bs : list bin) (a : Q) : list bin :=
  match bs with
  | [] => []
  | b :: rest =>
      (if Nat.eqb i except then b
       else mkbin (value b) (ewma (count b) 0 a))
      :: scaleDown_from (S i) except rest a
  end.

Definition scaleDown (except : nat) (bs : list bin) (a : Q) : list bin :=
  scaleDown_from 0 except bs a.

(** ** Insertion *)

(** The scan of [Add].  The result is the new bin sequence together with the
    index handed to the deferred [scaleDown], if one was deferred: the branch
    that appends after the loop defers none. *)
Fixpoint insert_scan (bs : list bin) (n : Q) : list bin * option nat :=
  match bs with
  | [] => ([mkbin n 1], None)
  | b :: rest =>
      if Qeq_bool (value b) n then
        (mkbin (value b) (count b + 1) :: rest, Some 0%nat)
      else if Qltb n (value b) then
        (mkbin n 1 :: b :: rest, Some 0%nat)
      else
        let (r, k) := insert_scan rest n in (b :: r, option_map S k)
  end.

(** ** Trimming *)

(** The first loop of [trim]: [total += h.bins[i].count]. *)
Fixpoint total_loop (bs : list bin) (total : Q) : Q :=
  match bs with
  | [] => total
  | b :: rest => total_loop rest (total + count b)
  end.

(** The inner loop of [trim]: [prev] is [bins[i-1]], [rest] starts at
    [bins[i]]; the pair [(minDelta, minDeltaIndex)] is threaded through. *)
Fixpoint scan_delta (prev : bin) (rest : list bin) (i : nat)
         (minDelta : Q) (minDeltaIndex : nat) : Q * nat :=
  match rest with
  | [] => (minDelta, minDeltaIndex)
  | b :: rest' =>
      let delta := value b - value prev in
      if Qltb delta minDelta
      then scan_delta b rest' (S i) delta i
      else scan_delta b rest' (S i) minDelta minDeltaIndex
  end.

Definition closest (bs : list bin) : nat :=
  match bs with
  | [] => 0%nat
  | b0 :: rest => snd (scan_delta b0 rest 1 sentinel_1e99 0)
  end.

Definition merge_bins (b1 b2 : bin) : bin :=
  let totalCount := count b1 + count b2 in
  let newValue :=
    if Qle_bool totalCount 1
    then (value b1 + value b2) / 2
    else (value b1 * count b1 + value b2 * count b2) / totalCount in
  mkbin newValue totalCount.

(** One pass of the body of the outer loop of [trim].  Index [0] stands for
    [minDeltaIndex = 0], at which [h.bins[minDeltaIndex-1]] is out of range. *)
Definition merge_at (k : nat) (bs : list bin) : option (list bin) :=
  match k with
  | O => None
  | S j =>
      match nth_error bs j, nth_error bs k with
      | Some b1, Some b2 =>
          Some (firstn j bs ++ merge_bins b1 b2 :: skipn (S k) bs)
      | _, _ => None
      end
  end.

Definition trim_step (bs : list bin) : option (list bin) :=
  merge_at (closest bs) bs.

(** The outer loop of [trim].  Every pass shortens the sequence by one bin, so
    [length bs] passes are enough ([trim_loop_fuel]); the loop then ends
    through its guard ([trim_loop_budget]) or by a panic of [trim_step]. *)
Fixpoint trim_loop (fuel : nat) (bs : list bin) (m : Z) : option (list bin) :=
  if (Z.of_nat (length bs) >? m)%Z then
    match fuel with
    | O => trim_step bs
    | S f =>
        match trim_step bs with
        | None => None
        | Some bs' => trim_loop f bs' m
        end
    end
  else Some bs.

Definition trim (h : WeightedHistogram) : option WeightedHistogram :=
  let t := int64_of_float (total_loop (bins h) 0) in
  match trim_loop (length (bins h)) (bins h) (maxbins h) with
  | None => None
  | Some bs => Some {| bins := bs; maxbins := maxbins h; total := t; alpha := alpha h |}
  end.

(** ** Add *)

(** The bins after the scan and the deferred [scaleDown] have run, before the
    deferred [trim]. *)
Definition insert_decay (bs : list bin) (n a : Q) : list bin :=
  match insert_scan bs n with
  | (bs', Some i) => scaleDown i bs' a
  | (bs', None) => bs'
  end.

Definition Add (h : WeightedHistogram) (n : Q) : option WeightedHistogram :=
  trim {| bins := insert_decay (bins h) n (alpha h);
          maxbins := maxbins h; total := total h; alpha := alpha h |}.

(** A sequence of calls of [Add], stopping at the first panic. *)
Fixpoint run (h : WeightedHistogram) (xs : list Q) : option WeightedHistogram :=
  match xs with
  | [] => Some h
  | x :: rest =>
      match Add h x with
      | None => None
      | Some h' => run h' rest
      end
  end.

(** ** Queries *)

Fixpoint quantile_loop (bs : list bin) (cnt : Q) : Q :=
  match bs with
  | [] => -1
  | b :: rest =>
      let cnt' := cnt - count b in
      if Qle_bool cnt' 0 then value b else quantile_loop rest cnt'
  end.

Definition Quantile (h : WeightedHistogram) (q : Q) : Q :=
  quantile_loop (bins h) (q * float_of_int64 (total h)).

Definition Count (h : WeightedHistogram) : Z := total h.

Definition BinsCount (h : WeightedHistogram) : Z := Z.of_nat (length (bins h)).

(** ** The remaining queries *)

(** [CDF]: the quotient by [float64(h.total)] is no number when [total] is
    zero (NaN or an infinity in Go); that case is [None]. *)
Fixpoint cdf_loop (bs : list bin) (x : Q) (cnt : Q) : Q :=
  match bs with
  | [] => cnt
  | b :: rest =>
      cdf_loop rest x (if Qle_bool (value b) x then cnt + count b else cnt)
  end.

Definition CDF (h : WeightedHistogram) (x : Q) : option Q :=
  let cnt := cdf_loop (bins h) x 0 in
  if (total h =? 0)%Z then None else Some (cnt / float_of_int64 (total h)).

Fixpoint mean_loop (bs : list bin) (sum : Q) : Q :=
  match bs with
  | [] => sum
  | b :: rest => mean_loop rest (sum + value b * count b)
  end.

Definition Mean (h : WeightedHistogram) : Q :=
  if (total h =? 0)%Z then 0
  else mean_loop (bins h) 0 / float_of_int64 (total h).

Fixpoint variance_loop (bs : list bin) (mean : Q) (sum : Q) : Q :=
  match bs with
  | [] => sum
  | b :: rest =>
      variance_loop rest mean
        (sum + count b * (value b - mean) * (value b - mean))
  end.

Definition Variance (h : WeightedHistogram) : Q :=
  if (total h =? 0)%Z then 0
  else variance_loop (bins h) (Mean h) 0 / float_of_int64 (total h).

Definition Bins (h : WeightedHistogram) (i : Z) : Q * Q :=
  if ((i <? 0) || (i >=? Z.of_nat (length (bins h))))%Z then (0, 0)
  else let b := nth (Z.to_nat i) (bins h) zero_bin in (count b, value b).

Definition Alpha (h : WeightedHistogram) : Q := alpha h.

(** ** Slices and their backing arrays *)

(** [Modes] sorts a slice in place, so what it leaves of the histogram
    depends on which backing array that slice points into.  A store holds the
    backing arrays by address; a slice is a window into one of them. *)
Record slice : Set := mkslice { arr : nat; off : nat; len : nat; cap : nat }.

Definition store : Set := list (list bin).

(** The histogram as laid out in memory: the field [bins] is a slice. *)
Record header : Set := mkheader {
  hbins : slice;
  hmaxbins : Z;
  htotal : Z;
  halpha : Q
}.

Definition memory : Set := (store * header)%type.

Definition contents (st : store) (s : slice) : list bin :=
  firstn (len s) (skipn (off s) (nth (arr s) st [])).

(** The histogram a memory holds. *)
Definition abstract (m : memory) : WeightedHistogram :=
  let (st, hd) := m in
  {| bins := contents st (hbins hd); maxbins := hmaxbins hd;
     total := htotal hd; alpha := halpha hd |}.

Fixpoint set_array (st : store) (a : nat) (new : list bin) : store :=
  match st, a with
  | [], _ => []
  | _ :: rest, O => new :: rest
  | x :: rest, S a' => x :: set_array rest a' new
  end.

Definition write_at (old : list bin) (pos : nat) (xs : list bin) : list bin :=
  firstn pos old ++ xs ++ skipn (pos + length xs) old.

(** [make([]bin, 0)]: a fresh array of no element. *)
Definition make_empty (st : store) : slice * store :=
  (mkslice (length st) 0 0 0, st ++ [[]]).

(** [append(s, xs...)]: within the capacity of [s] the elements are written
    behind it in its own array; beyond it they go, after a copy of [s], to a
    fresh array. *)
Definition append (s : slice) (xs : list bin) (st : store) : slice * store :=
  if (len s + length xs <=? cap s)%nat then
    (mkslice (arr s) (off s) (len s + length xs) (cap s),
     set_array st (arr s) (write_at (nth (arr s) st []) (off s + len s) xs))
  else
    (mkslice (length st) 0 (len s + length xs) (len s + length xs),
     st ++ [contents st s ++ xs]).

(** The comparison handed to [sort.Slice] by [Modes]. *)
Definition modes_less (bi bj : bin) : bool := Qle_bool (count bj) (count bi).

Section Queries.

(** [sort.Slice] belongs to the Go library; [sort_Slice less l] is the order
    in which it leaves the elements [l] of the slice. *)
Variable sort_Slice : (bin -> bin -> bool) -> list bin -> list bin.

Definition sort_in_place (s : slice) (less : bin -> bin -> bool) (st : store)
  : store :=
  set_array st (arr s)
    (write_at (nth (arr s) st []) (off s) (sort_Slice less (contents st s))).

(** The loop of [Modes] over [i < n && i < len(tmp)]. *)
Definition modes_values (n : Z) (tmp : list bin) : list Q :=
  map value (firstn (Z.to_nat n) tmp).

Definition Modes (n : Z) (m : memory) : list Q * memory :=
  let (st, hd) := m in
  if (htotal hd =? 0)%Z then ([], (st, hd))
  else
    let (tmp0, st1) := make_empty st in
    let (tmp, st2) := append tmp0 (contents st1 (hbins hd)) st1 in
    let st3 := sort_in_place tmp modes_less st2 in
    (modes_values n (contents st3 tmp), (st3, hd)).

End Queries.

(** The read-only queries only read the fields and the elements of [bins]. *)
Definition reading {A : Type} (f : WeightedHistogram -> A) (m : memory)
  : A * memory :=
  (f (abstract m), m).

(** ** Import of a state record *)

Module State.

Record histogramStateBin : Set := mkStateBin { Value : Q; Count : Q }.

Record histogramState : Set := mkState {
  Bins : list histogramStateBin;
  MaxBins : Z;
  Total : Z;
  Alpha : Q
}.

Definition zero : histogramState :=
  {| Bins := []; MaxBins := 0%Z; Total := 0%Z; Alpha := 0 |}.

End State.

Section Decoding.

(** [json.Unmarshal] belongs to the Go library: from the data and the record
    it is to fill it yields the record as it leaves it and the error, if
    any. *)
Variable error : Type.
Variable json_Unmarshal :
  list Byte.byte -> State.histogramState -> State.histogramState * option error.

Definition UnmarshalJSON (h : WeightedHistogram) (data : list Byte.byte)
  : WeightedHistogram * option error :=
  let (hs, err) := json_Unmarshal data State.zero in
  match err with
  | Some e => (h, Some e)
  | None =>
      ({| bins := map (fun v => mkbin (State.Value v) (State.Count v))
                      (State.Bins hs);
          maxbins := State.MaxBins hs;
          total := State.Total hs;
          alpha := State.Alpha hs |}, None)
  end.

End Decoding.

(** ** Notions used by the statements *)

(** The sum of the counts of a bin sequence. *)
Fixpoint sum_counts (bs : list bin) : Q :=
  match bs with
  | [] => 0
  | b :: rest => count b + sum_counts rest
  end.








(** The value gap between the bins [k-1] and [k]. *)
Definition gap (bs : list bin) (k : nat) : Q :=
  value (nth k bs zero_bin) - value (nth (pred k) bs zero_bin).

(** [k] is the adjacent pair [(k-1, k)] of least gap, the lowest such index. *)
Definition closest_pair (bs : list bin) (k : nat) : Prop :=
  (1 <= k < length bs)%nat /\
  (forall j, (1 <= j < length bs)%nat -> gap bs k <= gap bs j) /\
  (forall j, (1 <= j < k)%nat -> gap bs k < gap bs j).




(** ** Export of a state record *)

(** The record [MarshalJSON] fills before it hands it to [json.Marshal]. *)
Definition state_of (h : WeightedHistogram) : State.histogramState :=
  {| State.Bins := map (fun v => State.mkStateBin (value v) (count v)) (bins h);
     State.MaxBins := maxbins h;
     State.Total := total h;
     State.Alpha := alpha h |}.

Section Encoding.

(** [json.Marshal] belongs to the Go library.  The call of [log.Errorf] on an
    error writes a log line and is left out; a [nil] result is the empty
    byte sequence. *)
Variable error : Type.
Variable json_Marshal : State.histogramState -> list Byte.byte * option error.

Definition MarshalJSON (h : WeightedHistogram)
  : list Byte.byte * option error :=
  let (result, err) := json_Marshal (state_of h) in
  match err with
  | Some e => ([], Some e)
  | None => (result, None)
  end.

End Encoding.

(** ** Further notions used by the statements *)

(** What [scaleDown] makes of a bin other than the excepted one. *)
Definition decay (a : Q) (b : bin) : bin :=
  mkbin (value b) (ewma (count b) 0 a).



(** ** The code over binary64 *)

(** The same functions over the binary64 numbers of the kernel, whose
    operations round to nearest, ties to even, as those of Go do.  The
    conversion [int64(x)] of a NaN, an infinity or a number beyond the range
    of [int64] is implementation-specific in Go; it is given the value it has
    on amd64, the least [int64].  [0x1.d42aea2879f2ep+328] is the constant
    [1e99]. *)
Module F64.

Import PrimFloat FloatOps SpecFloat.

Record bin : Set := mkbin { value : float; count : float }.

Record WeightedHistogram : Set := mkWH {
  bins : list bin;
  maxbins : Z;
  total : Z;
  alpha : float
}.

Definition NewWeightedHistogram (n : Z) (a : float) : WeightedHistogram :=
  {| bins := []; maxbins := n; total := 0%Z; alpha := a |}.

Definition int64_min : Z := (- 2 ^ 63)%Z.

Definition int64_of_float (x : float) : Z :=
  match Prim2SF x with
  | S754_zero _ => 0%Z
  | S754_finite s m e =>
      let v := if (0 <=? e)%Z then (Zpos m * 2 ^ e)%Z
               else Z.quot (Zpos m) (2 ^ (- e)) in
      let z := if s then (- v)%Z else v in
      if ((int64_min <=? z) && (z <? 2 ^ 63))%Z then z else int64_min
  | _ => int64_min
  end.

Definition float_of_int64 (z : Z) : float :=
  if (z =? int64_min)%Z then (- PrimFloat.of_uint63 (Uint63.of_Z (2 ^ 62)) * 2)%float
  else if (z <? 0)%Z then (- PrimFloat.of_uint63 (Uint63.of_Z (- z)))%float
  else PrimFloat.of_uint63 (Uint63.of_Z z).

Definition ewma (existingVal newVal a : float) : float :=
  (newVal * (1 - a) + existingVal * a)%float.

Fixpoint scaleDown_from (i except : nat) (bs : list bin) (a : float) : list bin :=
  match bs with
  | [] => []
  | b :: rest =>
      (if Nat.eqb i except then b
       else mkbin (value b) (ewma (count b) 0 a))
      :: scaleDown_from (S i) except rest a
  end.

Definition scaleDown (except : nat) (bs : list bin) (a : float) : list bin :=
  scaleDown_from 0 except bs a.

Fixpoint insert_scan (bs : list bin) (n : float) : list bin * option nat :=
  match bs with
  | [] => ([mkbin n 1], None)
  | b :: rest =>
      if (value b =? n)%float then
        (mkbin (value b) (count b + 1) :: rest, Some 0%nat)
      else if (n <? value b)%float then
        (mkbin n 1 :: b :: rest, Some 0%nat)
      else
        let (r, k) := insert_scan rest n in (b :: r, option_map S k)
  end.

Fixpoint total_loop (bs : list bin) (total : float) : float :=
  match bs with
  | [] => total
  | b :: rest => total_loop rest (total + count b)
  end.

Fixpoint scan_delta (prev : bin) (rest : list bin) (i : nat)
         (minDelta : float) (minDeltaIndex : nat) : float * nat :=
  match rest with
  | [] => (minDelta, minDeltaIndex)
  | b :: rest' =>
      let delta := (value b - value prev)%float in
      if (delta <? minDelta)%float
      then scan_delta b rest' (S i) delta i
      else scan_delta b rest' (S i) minDelta minDeltaIndex
  end.

Definition closest (bs : list bin) : nat :=
  match bs with
  | [] => 0%nat
  | b0 :: rest => snd (scan_delta b0 rest 1 0x1.d42aea2879f2ep+328%float 0)
  end.

Definition merge_bins (b1 b2 : bin) : bin :=
  let totalCount := (count b1 + count b2)%float in
  let newValue :=
    if (totalCount <=? 1)%float
    then ((value b1 + value b2) / 2)%float
    else ((value b1 * count b1 + value b2 * count b2) / totalCount)%float in
  mkbin newValue totalCount.

Definition merge_at (k : nat) (bs : list bin) : option (list bin) :=
  match k with
  | O => None
  | S j =>
      match nth_error bs j, nth_error bs k with
      | Some b1, Some b2 =>
          Some (firstn j bs ++ merge_bins b1 b2 :: skipn (S k) bs)
      | _, _ => None
      end
  end.

Definition trim_step (bs : list bin) : option (list bin) :=
  merge_at (closest bs) bs.

Fixpoint trim_loop (fuel : nat) (bs : list bin) (m : Z) : option (list bin) :=
  if (Z.of_nat (length bs) >? m)%Z then
    match fuel with
    | O => trim_step bs
    | S f =>
        match trim_step bs with
        | None => None
        | Some bs' => trim_loop f bs' m
        end
    end
  else Some bs.

Definition trim (h : WeightedHistogram) : option WeightedHistogram :=
  let t := int64_of_float (total_loop (bins h) 0) in
  match trim_loop (length (bins h)) (bins h) (maxbins h) with
  | None => None
  | Some bs => Some {| bins := bs; maxbins := maxbins h; total := t; alpha := alpha h |}
  end.

Definition insert_decay (bs : list bin) (n a : float) : list bin :=
  match insert_scan bs n with
  | (bs', Some i) => scaleDown i bs' a
  | (bs', None) => bs'
  end.

Definition Add (h : WeightedHistogram) (n : float) : option WeightedHistogram :=
  trim {| bins := insert_decay (bins h) n (alpha h);
          maxbins := maxbins h; total := total h; alpha := alpha h |}.

Fixpoint run (h : WeightedHistogram) (xs : list float) : option WeightedHistogram :=
  match xs with
  | [] => Some h
  | x :: rest =>
      match Add h x with
      | None => None
      | Some h' => run h' rest
      end
  end.

Fixpoint quantile_loop (bs : list bin) (cnt : float) : float :=
  match bs with
  | [] => (-1)%float
  | b :: rest =>
      let cnt' := (cnt - count b)%float in
      if (cnt' <=? 0)%float then value b else quantile_loop rest cnt'
  end.

Definition Quantile (h : WeightedHistogram) (q : float) : float :=
  quantile_loop (bins h) (q * float_of_int64 (total h))%float.

End F64.

(** ** A sequence of insertions without merge *)

(** The bins after the insertion steps of a sequence of calls none of which
    merges. *)
Fixpoint insert_all (bs : list bin) (xs : list Q) (a : Q) : list bin :=
  match xs with
  | [] => bs
  | x :: rest => insert_all (insert_decay bs x a) rest a
  end.

(** * Properties *)

(** ** Comparisons *)

Lemma Qltb_lt (x y : Q) : Qltb x y = true <-> x < y.
Proof.
  unfold Qltb. rewrite negb_true_iff.
  destruct (Qle_bool y x) eqn:E.
  - apply Qle_bool_iff in E. split; [discriminate | intros H; lra].
  - split; [intros _ | reflexivity].
    destruct (Qlt_le_dec x y) as [H | H]; [exact H |].
    apply Qle_bool_iff in H. congruence.
Qed.

Lemma Qltb_ge (x y : Q) : Qltb x y = false <-> y <= x.
Proof.
  unfold Qltb. rewrite negb_false_iff. apply Qle_bool_iff.
Qed.


(** [int64_of_float] is the floor of a non-negative number and the ceiling of
    a negative one. *)
Lemma int64_of_float_floor (x : Q) :
  int64_of_float x =
  if Qle_bool 0 x then Qfloor x else (- Qfloor (- x))%Z.
Proof.
  destruct x as [n d]. unfold int64_of_float, Qfloor, Qopp, Qle_bool. simpl.
  rewrite Z.mul_1_r.
  destruct (Z.leb_spec 0 n) as [H | H].
  - apply Z.quot_div_nonneg; lia.
  - rewrite <- (Z.opp_involutive n) at 1.
    rewrite Z.quot_opp_l by lia.
    f_equal. apply Z.quot_div_nonneg; lia.
Qed.

Lemma int64_of_float_comp (x y : Q) :
  x == y -> int64_of_float x = int64_of_float y.
Proof.
  intros E. rewrite !int64_of_float_floor.
  rewrite (Qleb_comp 0 0 (Qeq_refl 0) x y E).
  destruct (Qle_bool 0 y).
  - now apply Qfloor_comp.
  - f_equal. apply Qfloor_comp. now rewrite E.
Qed.




(** ** Quantile *)





(** ** Sums of counts *)



(** ** One merge *)

Lemma nth_error_pair_split (bs : list bin) :
  forall j b1 b2,
    nth_error bs j = Some b1 -> nth_error bs (S j) = Some b2 ->
    bs = firstn j bs ++ b1 :: b2 :: skipn (S (S j)) bs.
Proof.
  induction bs as [| b rest IH]; intros [| j] b1 b2 H1 H2; simpl in *;
    try discriminate.
  - destruct rest as [| c rest]; [discriminate |].
    simpl in H2. congruence.
  - f_equal. now apply IH.
Qed.

(** A merge replaces two neighbours by [merge_bins] of them. *)
Lemma merge_at_split (k : nat) (bs bs' : list bin) :
  merge_at k bs = Some bs' ->
  exists pre b1 b2 post,
    bs = pre ++ b1 :: b2 :: post /\
    bs' = pre ++ merge_bins b1 b2 :: post /\
    k = S (length pre).
Proof.
  destruct k as [| j]; [discriminate |]. unfold merge_at.
  destruct (nth_error bs j) as [b1 |] eqn:E1; [| discriminate].
  destruct (nth_error bs (S j)) as [b2 |] eqn:E2; [| discriminate].
  intros H. injection H as <-.
  exists (firstn j bs), b1, b2, (skipn (S (S j)) bs).
  split; [now apply nth_error_pair_split |]. split; [reflexivity |].
  f_equal. symmetry. apply firstn_length_le.
  apply Nat.lt_le_incl. apply nth_error_Some. congruence.
Qed.

Lemma merge_at_length (k : nat) (bs bs' : list bin) :
  merge_at k bs = Some bs' -> length bs = S (length bs').
Proof.
  intros H. apply merge_at_split in H as (pre & b1 & b2 & post & -> & -> & _).
  rewrite !length_app. simpl. lia.
Qed.


(** ** The loop of [trim] *)


(** With as much fuel as there are bins the loop leaves through its guard:
    the result is within the budget. *)
Lemma trim_loop_budget (m : Z) :
  forall fuel bs bs',
    (length bs <= fuel)%nat ->
    trim_loop fuel bs m = Some bs' -> (Z.of_nat (length bs') <= m)%Z.
Proof.
  induction fuel as [| f IH]; intros bs bs' Hf H; simpl in H;
    destruct (Z.gtb_spec (Z.of_nat (length bs)) m) as [G | G].
  - destruct bs; [discriminate | simpl in Hf; lia].
  - injection H as <-. exact G.
  - unfold trim_step in H.
    destruct (merge_at (closest bs) bs) as [bs1 |] eqn:E; [| discriminate].
    apply merge_at_length in E. apply (IH bs1); [lia | exact H].
  - injection H as <-. exact G.
Qed.

(** More fuel than there are bins changes nothing. *)
Lemma trim_loop_fuel (m : Z) :
  forall fuel bs,
    (length bs <= fuel)%nat ->
    trim_loop fuel bs m = trim_loop (length bs) bs m.
Proof.
  induction fuel as [| f IH]; intros bs Hf.
  - destruct bs; [reflexivity | simpl in Hf; lia].
  - destruct bs as [| b rest].
    + simpl. destruct (0 >? m)%Z; reflexivity.
    + cbn [trim_loop length].
      destruct (Z.of_nat (S (length rest)) >? m)%Z; [| reflexivity].
      destruct (trim_step (b :: rest)) as [bs1 |] eqn:E; [| reflexivity].
      unfold trim_step in E. apply merge_at_length in E. simpl in E.
      injection E as E. simpl in Hf.
      rewrite (IH bs1) by lia. rewrite E. reflexivity.
Qed.

(** Within the budget the loop is not entered. *)
Lemma trim_loop_within (m : Z) (bs : list bin) (fuel : nat) :
  (Z.of_nat (length bs) <= m)%Z -> trim_loop fuel bs m = Some bs.
Proof.
  intros H. destruct fuel; simpl;
    destruct (Z.gtb_spec (Z.of_nat (length bs)) m); try reflexivity; lia.
Qed.

(** ** The cached total *)

Lemma total_loop_sum (bs : list bin) :
  forall t, total_loop bs t == t + sum_counts bs.
Proof.
  induction bs as [| b rest IH]; intros t; simpl; [ring |].
  rewrite IH. ring.
Qed.

Lemma Add_fields (h h' : WeightedHistogram) (n : Q) :
  Add h n = Some h' ->
  maxbins h' = maxbins h /\ alpha h' = alpha h /\
  total h' = int64_of_float (sum_counts (insert_decay (bins h) n (alpha h))) /\
  trim_loop (length (insert_decay (bins h) n (alpha h)))
            (insert_decay (bins h) n (alpha h)) (maxbins h) = Some (bins h').
Proof.
  unfold Add, trim. cbn [bins maxbins alpha total].
  destruct (trim_loop _ _ _) as [bs |]; [| discriminate].
  intros H. injection H as <-. cbn. repeat split; try reflexivity.
  apply int64_of_float_comp. rewrite total_loop_sum. ring.
Qed.


(** ** Decay *)

Lemma ewma_zero (c a : Q) : ewma c 0 a == c * a.
Proof. unfold ewma. ring. Qed.

Lemma scaleDown_from_nth (a : Q) (except : nat) :
  forall bs i k,
    nth_error (scaleDown_from i except bs a) k =
    option_map (fun b => if Nat.eqb (i + k) except then b
                         else mkbin (value b) (ewma (count b) 0 a))
               (nth_error bs k).
Proof.
  induction bs as [| b rest IH]; intros i [| k]; simpl; try reflexivity.
  - now rewrite Nat.add_0_r.
  - rewrite IH. now rewrite Nat.add_succ_comm.
Qed.

(** What [scaleDown] does: the bin at [except] is kept, the count of every
    other bin is multiplied by [alpha]. *)
Lemma scaleDown_nth (a : Q) (except : nat) (bs : list bin) (k : nat) (b : bin) :
  nth_error bs k = Some b ->
  exists b',
    nth_error (scaleDown except bs a) k = Some b' /\
    value b' = value b /\
    (k = except -> b' = b) /\
    (k <> except -> count b' == count b * a).
Proof.
  intros H. unfold scaleDown. rewrite scaleDown_from_nth, H. simpl.
  destruct (Nat.eqb_spec k except) as [E | E].
  - exists b. split; [reflexivity |]. split; [reflexivity |].
    split; [reflexivity | contradiction].
  - eexists. split; [reflexivity |]. simpl. split; [reflexivity |].
    split; [contradiction | intros _; apply ewma_zero].
Qed.

Lemma scaleDown_from_values (a : Q) (except : nat) :
  forall bs i, map value (scaleDown_from i except bs a) = map value bs.
Proof.
  induction bs as [| b rest IH]; intros i; simpl; [reflexivity |].
  rewrite IH. destruct (Nat.eqb i except); reflexivity.
Qed.

Lemma scaleDown_from_length (a : Q) (except : nat) :
  forall bs i, length (scaleDown_from i except bs a) = length bs.
Proof.
  induction bs as [| b rest IH]; intros i; simpl; [reflexivity | now rewrite IH].
Qed.

(** When every bin lies below [n] the scan of [Add] falls through to the
    final [append]; no [scaleDown] is deferred and the old bins keep their
    counts. *)
Lemma insert_scan_append (n : Q) :
  forall bs,
    Forall (fun b => value b < n) bs ->
    insert_scan bs n = (bs ++ [mkbin n 1], None).
Proof.
  induction 1 as [| b rest Hb _ IH]; simpl; [reflexivity |].
  destruct (Qeq_bool (value b) n) eqn:E1.
  { apply Qeq_bool_eq in E1. lra. }
  destruct (Qltb n (value b)) eqn:E2.
  { apply Qltb_lt in E2. lra. }
  rewrite IH. reflexivity.
Qed.

Lemma insert_decay_append (n a : Q) (bs : list bin) :
  Forall (fun b => value b < n) bs ->
  insert_decay bs n a = bs ++ [mkbin n 1].
Proof.
  intros H. unfold insert_decay. now rewrite insert_scan_append.
Qed.

(** C1 at the input [NewWeightedHistogram(5, 0.5)], [Add(1)], [Add(2)]: the
    second call appends the bin of value [2] and the bin of value [1] keeps
    count [1], where decay by [alpha] would leave [1/2]. *)
Theorem Add_append_leaves_counts :
  run (NewWeightedHistogram 5 (1 # 2)) [1; 2] =
  Some (mkWH [mkbin 1 1; mkbin 2 1] 5 2 (1 # 2)).
Proof. vm_compute. reflexivity. Qed.

(** ** Insertion keeps the bins in order *)






Lemma insert_scan_length (n : Q) :
  forall bs, (length (fst (insert_scan bs n)) <= S (length bs))%nat.
Proof.
  induction bs as [| b rest IH]; simpl; [lia |].
  destruct (Qeq_bool (value b) n); [| destruct (Qltb n (value b))]; simpl;
    try lia.
  destruct (insert_scan rest n) as [r k]. simpl in *. lia.
Qed.


(** ** Decay keeps order, signs and the touched bin *)







(** ** The bins after the scan and the deferred decay *)

Lemma insert_decay_values (n a : Q) (bs : list bin) :
  map value (insert_decay bs n a) = map value (fst (insert_scan bs n)).
Proof.
  unfold insert_decay. destruct (insert_scan bs n) as [r [k |]]; simpl;
    [apply scaleDown_from_values | reflexivity].
Qed.

Lemma insert_decay_length (n a : Q) (bs : list bin) :
  (length (insert_decay bs n a) <= S (length bs))%nat.
Proof.
  rewrite <- (length_map value), insert_decay_values, length_map.
  apply insert_scan_length.
Qed.






(** ** Merging keeps order, range and signs over the rationals *)







(** Whatever a merge preserves, the loop of [trim] preserves. *)
Lemma trim_loop_preserves (P : list bin -> Prop) (m : Z) :
  (forall k bs bs', P bs -> merge_at k bs = Some bs' -> P bs') ->
  forall fuel bs bs', P bs -> trim_loop fuel bs m = Some bs' -> P bs'.
Proof.
  intros Hstep. induction fuel as [| f IH]; intros bs bs' HP H; simpl in H;
    destruct (Z.of_nat (length bs) >? m)%Z.
  - now apply (Hstep _ _ _ HP H).
  - now injection H as <-.
  - unfold trim_step in H.
    destruct (merge_at (closest bs) bs) as [bs1 |] eqn:E; [| discriminate].
    apply (IH bs1); [now apply (Hstep _ _ _ HP E) | exact H].
  - now injection H as <-.
Qed.




Lemma Add_budget (h h' : WeightedHistogram) (n : Q) :
  Add h n = Some h' -> (BinsCount h' <= maxbins h')%Z.
Proof.
  intros H. apply Add_fields in H as (Hm & _ & _ & Hl).
  apply trim_loop_budget in Hl; [| apply Nat.le_refl].
  unfold BinsCount. now rewrite Hm.
Qed.

(** ** The search for the closest pair *)

Lemma gap_cons (a : bin) (l : list bin) (j : nat) :
  gap (a :: l) (S (S j)) = gap l (S j).
Proof. reflexivity. Qed.

(** The inner loop of [trim] either keeps the pair it was entered with, when
    no later gap is below [minDelta], or ends with the first of the least
    gaps. *)
Lemma scan_delta_spec :
  forall rest prev i md mi md' mi',
    scan_delta prev rest i md mi = (md', mi') ->
    (mi' = mi /\ md' = md /\
     forall k, (k < length rest)%nat -> md <= gap (prev :: rest) (S k))
    \/
    (exists k, (k < length rest)%nat /\ mi' = (i + k)%nat /\
       md' = gap (prev :: rest) (S k) /\ md' < md /\
       (forall j, (j < length rest)%nat -> md' <= gap (prev :: rest) (S j)) /\
       (forall j, (j < k)%nat -> md' < gap (prev :: rest) (S j))).
Proof.
  induction rest as [| b rest IH]; intros prev i md mi md' mi' H; simpl in H.
  - injection H as <- <-. left. repeat split. intros k Hk. inversion Hk.
  - assert (G0 : gap (prev :: b :: rest) 1 = value b - value prev) by reflexivity.
    destruct (Qltb (value b - value prev) md) eqn:E.
    + apply Qltb_lt in E. apply IH in H.
      destruct H as [(-> & -> & Hall) | (k & Hk & -> & -> & Hlt & Hall & Hbef)].
      * right. exists 0%nat. simpl length.
        split; [lia |]. split; [lia |]. split; [now rewrite G0 |].
        split; [exact E |]. split; [| intros j Hj; inversion Hj].
        intros [| j] Hj; [rewrite G0; lra |].
        rewrite gap_cons. apply Hall. lia.
      * right. exists (S k). simpl length.
        split; [lia |]. split; [lia |]. rewrite gap_cons.
        split; [reflexivity |]. split; [lra |]. split.
        -- intros [| j] Hj; [rewrite G0; lra |].
           rewrite gap_cons. apply Hall. lia.
        -- intros [| j] Hj; [rewrite G0; lra |].
           rewrite gap_cons. apply Hbef. lia.
    + apply Qltb_ge in E. apply IH in H.
      destruct H as [(-> & -> & Hall) | (k & Hk & -> & -> & Hlt & Hall & Hbef)].
      * left. repeat split.
        intros [| j] Hj; [rewrite G0; exact E |].
        rewrite gap_cons. apply Hall. simpl in Hj. lia.
      * right. exists (S k). simpl length.
        split; [lia |]. split; [lia |]. rewrite gap_cons.
        split; [reflexivity |]. split; [exact Hlt |]. split.
        -- intros [| j] Hj; [rewrite G0; lra |].
           rewrite gap_cons. apply Hall. lia.
        -- intros [| j] Hj; [rewrite G0; lra |].
           rewrite gap_cons. apply Hbef. lia.
Qed.

(** [closest] is [0] exactly when no gap is below the sentinel [1e99];
    otherwise it is the closest pair, the lowest index among ties. *)
Lemma closest_spec (bs : list bin) :
  (closest bs = 0%nat /\
   forall j, (1 <= j < length bs)%nat -> sentinel_1e99 <= gap bs j)
  \/
  (closest_pair bs (closest bs) /\ gap bs (closest bs) < sentinel_1e99).
Proof.
  destruct bs as [| b0 rest].
  - left. split; [reflexivity |]. simpl. intros j Hj. lia.
  - unfold closest.
    destruct (scan_delta b0 rest 1 sentinel_1e99 0) as [md' mi'] eqn:E.
    apply scan_delta_spec in E. cbn [snd].
    destruct E as [(-> & -> & Hall) | (k & Hk & -> & -> & Hlt & Hall & Hbef)].
    + left. split; [reflexivity |].
      intros [| j] Hj; [lia |]. apply Hall. simpl in Hj. lia.
    + right. split; [| exact Hlt]. unfold closest_pair. simpl length.
      split; [lia |]. split.
      * intros [| j] Hj; [lia |]. apply Hall. lia.
      * intros [| j] Hj; [lia |]. apply Hbef. lia.
Qed.

Lemma merge_at_some (k : nat) (bs : list bin) :
  (1 <= k < length bs)%nat ->
  merge_at k bs =
  Some (firstn (pred k) bs ++
        merge_bins (nth (pred k) bs zero_bin) (nth k bs zero_bin)
        :: skipn (S k) bs).
Proof.
  intros Hk. destruct k as [| j]; [lia |]. unfold merge_at. simpl pred.
  rewrite (nth_error_nth' bs zero_bin) by lia.
  rewrite (nth_error_nth' bs zero_bin) by lia. reflexivity.
Qed.

(** One pass of the loop of [trim], when some gap is below [1e99]: the
    closest pair [(k-1, k)], lowest index among ties, is replaced by one bin
    whose count is the sum of the two counts and whose value is the midpoint
    when that sum is at most [1] and the mass-weighted average otherwise. *)
Lemma trim_step_merges_closest (bs : list bin) (j : nat) :
  (1 <= j < length bs)%nat -> gap bs j < sentinel_1e99 ->
  exists k b1 b2,
    closest_pair bs k /\
    nth_error bs (pred k) = Some b1 /\ nth_error bs k = Some b2 /\
    trim_step bs =
    Some (firstn (pred k) bs ++
          {| value := if Qle_bool (count b1 + count b2) 1
                      then (value b1 + value b2) / 2
                      else (value b1 * count b1 + value b2 * count b2)
                           / (count b1 + count b2);
             count := count b1 + count b2 |}
          :: skipn (S k) bs).
Proof.
  intros Hj Hg.
  destruct (closest_spec bs) as [(_ & Hall) | (Hc & _)].
  { specialize (Hall j Hj). lra. }
  exists (closest bs), (nth (pred (closest bs)) bs zero_bin),
         (nth (closest bs) bs zero_bin).
  pose proof Hc as (Hk & _).
  split; [exact Hc |].
  split; [apply nth_error_nth'; lia |].
  split; [apply nth_error_nth'; lia |].
  unfold trim_step. now rewrite merge_at_some.
Qed.

(** ** Sequences of calls *)

Lemma run_fields :
  forall xs h h',
    run h xs = Some h' -> maxbins h' = maxbins h /\ alpha h' = alpha h.
Proof.
  induction xs as [| x xs IH]; intros h h' H; simpl in H.
  - injection H as <-. split; reflexivity.
  - destruct (Add h x) as [h1 |] eqn:E; [| discriminate].
    apply Add_fields in E as (Em & Ea & _). apply IH in H as (Hm & Ha).
    split; congruence.
Qed.

Lemma run_budget :
  forall xs h h',
    (BinsCount h <= maxbins h)%Z -> run h xs = Some h' ->
    (BinsCount h' <= maxbins h')%Z.
Proof.
  induction xs as [| x xs IH]; intros h h' Hb H; simpl in H.
  - now injection H as <-.
  - destruct (Add h x) as [h1 |] eqn:E; [| discriminate].
    apply (IH h1); [now apply (Add_budget h h1 x) | exact H].
Qed.








(** ** Calls that merge nothing *)

Lemma Add_spare (h : WeightedHistogram) (n : Q) :
  (Z.of_nat (length (insert_decay (bins h) n (alpha h))) <= maxbins h)%Z ->
  exists h',
    Add h n = Some h' /\ bins h' = insert_decay (bins h) n (alpha h) /\
    maxbins h' = maxbins h /\ alpha h' = alpha h.
Proof.
  intros H. unfold Add, trim. cbn [bins maxbins alpha].
  rewrite trim_loop_within by exact H.
  eexists. split; [reflexivity |]. repeat split.
Qed.

(** As long as the bins and the samples to come fit the budget together,
    every call returns and the bins are those of the insertion steps. *)
Lemma run_spare :
  forall xs h,
    (Z.of_nat (length (bins h)) + Z.of_nat (length xs) <= maxbins h)%Z ->
    exists h',
      run h xs = Some h' /\ bins h' = insert_all (bins h) xs (alpha h) /\
      maxbins h' = maxbins h /\ alpha h' = alpha h.
Proof.
  induction xs as [| x xs IH]; intros h H; simpl.
  - exists h. repeat split.
  - simpl length in H.
    pose proof (insert_decay_length x (alpha h) (bins h)) as Hl.
    destruct (Add_spare h x) as (h1 & E & Hb & Hm & Ha); [lia |].
    rewrite E.
    destruct (IH h1) as (h' & Hr & Hb' & Hm' & Ha'); [rewrite Hb, Hm; lia |].
    exists h'. split; [exact Hr |]. split; [| split; congruence].
    rewrite Hb', Hb, Ha. reflexivity.
Qed.

Lemma run_spare_new (n : Z) (a : Q) (xs : list Q) :
  (Z.of_nat (length xs) <= n)%Z ->
  exists h,
    run (NewWeightedHistogram n a) xs = Some h /\
    bins h = insert_all [] xs a.
Proof.
  intros H. destruct (run_spare xs (NewWeightedHistogram n a)) as
    (h & Hr & Hb & _); [simpl; lia |].
  exists h. split; assumption.
Qed.

















(** ** The invariants of the specification *)

(** C2: a histogram made with [maxbins >= 1] holds at most [maxbins] bins
    after every call of a sequence of [Add] that returns; and a sequence of
    at most [maxbins] calls does return. *)
Theorem BinsCount_within_maxbins (n : Z) (a : Q) (xs : list Q) :
  (1 <= n)%Z ->
  (forall h, run (NewWeightedHistogram n a) xs = Some h ->
             (BinsCount h <= n)%Z /\ maxbins h = n) /\
  ((Z.of_nat (length xs) <= n)%Z ->
   exists h, run (NewWeightedHistogram n a) xs = Some h).
Proof.
  intros Hn. split.
  - intros h H. pose proof (run_fields _ _ _ H) as (Hm & _).
    apply run_budget in H; [| unfold BinsCount; simpl; lia].
    simpl in Hm. rewrite Hm in H. split; assumption.
  - intros Hl. destruct (run_spare_new n a xs Hl) as (h & Hr & _).
    exists h. exact Hr.
Qed.

Lemma BinsCount_within_maxbins_witness :
  (exists h, run (NewWeightedHistogram 2 1) [3; 1; 2; 5] = Some h /\
             (BinsCount h <= 2)%Z /\ maxbins h = 2%Z) /\
  (exists h, run (NewWeightedHistogram 2 1) [3; 1] = Some h).
Proof.
  assert (H1 : (1 <= 2)%Z) by lia.
  split.
  - destruct (BinsCount_within_maxbins 2 1 [3; 1; 2; 5] H1) as (Hb & _).
    eexists. split; [vm_compute; reflexivity |].
    apply Hb. vm_compute. reflexivity.
  - destruct (BinsCount_within_maxbins 2 1 [3; 1] H1) as (_ & Ht).
    apply Ht. simpl. lia.
Defined.





(** ** The ends of [Quantile] *)






(** ** The sentinel of [trim] *)

(** C4 at the input [NewWeightedHistogram(1, 1)], [Add(0)], [Add(1e100)]:
    the only gap, [1e100], is not below the initial [minDelta = 1e99], so
    [minDeltaIndex] stays [0] and the read of [h.bins[minDeltaIndex-1]]
    panics; the two bins are not merged. *)
Theorem trim_sentinel_panic :
  run (NewWeightedHistogram 1 1) [0] = Some (mkWH [mkbin 0 1] 1 1 1) /\
  insert_decay [mkbin 0 1] (inject_Z (10 ^ 100)) 1 =
    [mkbin 0 1; mkbin (inject_Z (10 ^ 100)) 1] /\
  closest [mkbin 0 1; mkbin (inject_Z (10 ^ 100)) 1] = 0%nat /\
  Add (mkWH [mkbin 0 1] 1 1 1) (inject_Z (10 ^ 100)) = None /\
  run (NewWeightedHistogram 1 1) [0; inject_Z (10 ^ 100)] = None.
Proof. repeat split; vm_compute; reflexivity. Qed.

(** ** Import *)

(** C9: when [json.Unmarshal] reports an error, [UnmarshalJSON] returns that
    error and the histogram is as it was, field for field; when it reports
    none, all four fields are those of the decoded record. *)
Theorem UnmarshalJSON_atomic
        (error : Type)
        (json_Unmarshal : list Byte.byte -> State.histogramState ->
                          State.histogramState * option error)
        (h : WeightedHistogram) (data : list Byte.byte) :
  (forall hs e,
      json_Unmarshal data State.zero = (hs, Some e) ->
      UnmarshalJSON error json_Unmarshal h data = (h, Some e)) /\
  (forall hs,
      json_Unmarshal data State.zero = (hs, None) ->
      exists h',
        UnmarshalJSON error json_Unmarshal h data = (h', None) /\
        map (fun b => (value b, count b)) (bins h') =
          map (fun v => (State.Value v, State.Count v)) (State.Bins hs) /\
        maxbins h' = State.MaxBins hs /\
        total h' = State.Total hs /\
        alpha h' = State.Alpha hs).
Proof.
  split.
  - intros hs e E. unfold UnmarshalJSON. rewrite E. reflexivity.
  - intros hs E. unfold UnmarshalJSON. rewrite E.
    eexists. split; [reflexivity |]. cbn [bins maxbins total alpha].
    split; [| repeat split]. rewrite map_map. reflexivity.
Qed.

Lemma UnmarshalJSON_atomic_witness :
  UnmarshalJSON nat
    (fun data hs =>
       match data with
       | [] => (hs, Some 1%nat)
       | _ => (State.mkState [State.mkStateBin 7 2] 3 2 (1 # 2), None)
       end)
    (mkWH [mkbin 5 1] 4 1 1) [] = (mkWH [mkbin 5 1] 4 1 1, Some 1%nat) /\
  exists h',
    UnmarshalJSON nat
      (fun data hs =>
         match data with
         | [] => (hs, Some 1%nat)
         | _ => (State.mkState [State.mkStateBin 7 2] 3 2 (1 # 2), None)
         end)
      (mkWH [mkbin 5 1] 4 1 1) [Byte.x7b; Byte.x7d] = (h', None) /\
    maxbins h' = 3%Z /\ total h' = 2%Z /\ alpha h' = 1 # 2.
Proof.
  split.
  - destruct (UnmarshalJSON_atomic nat
                (fun data hs =>
                   match data with
                   | [] => (hs, Some 1%nat)
                   | _ => (State.mkState [State.mkStateBin 7 2] 3 2 (1 # 2),
                           None)
                   end)
                (mkWH [mkbin 5 1] 4 1 1) []) as (Herr & _).
    apply (Herr State.zero 1%nat). reflexivity.
  - destruct (UnmarshalJSON_atomic nat
                (fun data hs =>
                   match data with
                   | [] => (hs, Some 1%nat)
                   | _ => (State.mkState [State.mkStateBin 7 2] 3 2 (1 # 2),
                           None)
                   end)
                (mkWH [mkbin 5 1] 4 1 1) [Byte.x7b; Byte.x7d]) as (_ & Hok).
    destruct (Hok _ eq_refl) as (h' & E & _ & Hm & Ht & Ha).
    exists h'. repeat split; assumption.
Defined.

(** ** Queries leave the histogram alone *)

Lemma set_array_other (new : list bin) :
  forall st a k, a <> k -> nth a (set_array st k new) [] = nth a st [].
Proof.
  induction st as [| x rest IH]; intros [| a] [| k] H; simpl;
    try reflexivity; try congruence.
  apply IH. congruence.
Qed.

Lemma contents_same (st st' : store) (s : slice) :
  nth (arr s) st' [] = nth (arr s) st [] -> contents st' s = contents st s.
Proof. unfold contents. now intros ->. Qed.

(** [append] onto a slice of a fresh array leaves the older arrays alone and
    yields a slice outside them. *)
Lemma append_fresh (st : store) (s : slice) (xs : list bin) (old : nat) :
  (old <= arr s)%nat -> (old <= length st)%nat ->
  (old <= arr (fst (append s xs st)))%nat /\
  forall a, (a < old)%nat ->
            nth a (snd (append s xs st)) [] = nth a st [].
Proof.
  intros Hs Hl. unfold append.
  destruct (len s + length xs <=? cap s)%nat; cbn [fst snd arr].
  - split; [exact Hs |]. intros a Ha. apply set_array_other. lia.
  - split; [exact Hl |]. intros a Ha. apply app_nth1. lia.
Qed.

(** C10: none of the queries changes the histogram: [Quantile], [CDF],
    [Mean], [Variance], [Count], [BinsCount] and [Bins] leave the memory as
    it is; [Modes] allocates and sorts an array of its own, and leaves every
    array allocated before the call, the four fields, and so the histogram,
    as they were -- whatever [sort.Slice] does to the slice it is given. *)
Theorem queries_leave_histogram
        (sort_Slice : (bin -> bin -> bool) -> list bin -> list bin)
        (m : memory) (q x : Q) (n i : Z) :
  (arr (hbins (snd m)) < length (fst m))%nat ->
  snd (reading (fun h => Quantile h q) m) = m /\
  snd (reading (fun h => CDF h x) m) = m /\
  snd (reading Mean m) = m /\
  snd (reading Variance m) = m /\
  snd (reading Count m) = m /\
  snd (reading BinsCount m) = m /\
  snd (reading (fun h => Bins h i) m) = m /\
  snd (snd (Modes sort_Slice n m)) = snd m /\
  (forall a, (a < length (fst m))%nat ->
             nth a (fst (snd (Modes sort_Slice n m))) [] = nth a (fst m) []) /\
  abstract (snd (Modes sort_Slice n m)) = abstract m.
Proof.
  intros Hw. repeat (split; [reflexivity |]).
  destruct m as [st hd]. cbn [fst snd] in *.
  assert (Hmain :
    snd (snd (Modes sort_Slice n (st, hd))) = hd /\
    forall a, (a < length st)%nat ->
              nth a (fst (snd (Modes sort_Slice n (st, hd)))) [] = nth a st []).
  { unfold Modes. destruct (htotal hd =? 0)%Z; [split; reflexivity |].
    unfold make_empty.
    pose proof (append_fresh (st ++ [[]]) (mkslice (length st) 0 0 0)
                  (contents (st ++ [[]]) (hbins hd)) (length st)) as Hap.
    destruct (append (mkslice (length st) 0 0 0)
                (contents (st ++ [[]]) (hbins hd)) (st ++ [[]]))
      as [tmp st2].
    cbn [fst snd arr] in *.
    destruct Hap as (Htmp & Hold);
      [apply Nat.le_refl | rewrite length_app; simpl; lia |].
    split; [reflexivity |]. intros a Ha.
    unfold sort_in_place. rewrite set_array_other by lia.
    rewrite Hold by exact Ha. apply app_nth1. exact Ha. }
  destruct Hmain as (Hhd & Harr).
  split; [exact Hhd |]. split; [exact Harr |].
  destruct (Modes sort_Slice n (st, hd)) as [r [st' hd']].
  cbn [fst snd] in *. subst hd'. unfold abstract. f_equal.
  apply contents_same. now apply Harr.
Qed.

Lemma queries_leave_histogram_witness :
  (arr (hbins (snd ([[mkbin 1 1; mkbin 2 3]],
                    mkheader (mkslice 0 0 2 2) 5 4 1)))
   < length (fst ([[mkbin 1 1; mkbin 2 3]],
                  mkheader (mkslice 0 0 2 2) 5 4 1)))%nat /\
  fst (Modes (fun _ l => rev l) 1
         ([[mkbin 1 1; mkbin 2 3]], mkheader (mkslice 0 0 2 2) 5 4 1)) = [2] /\
  abstract (snd (Modes (fun _ l => rev l) 1
                   ([[mkbin 1 1; mkbin 2 3]],
                    mkheader (mkslice 0 0 2 2) 5 4 1))) =
  abstract ([[mkbin 1 1; mkbin 2 3]], mkheader (mkslice 0 0 2 2) 5 4 1).
Proof.
  assert (Hw : (arr (hbins (snd ([[mkbin 1 1; mkbin 2 3]],
                                 mkheader (mkslice 0 0 2 2) 5 4 1)))
                < length (fst ([[mkbin 1 1; mkbin 2 3]],
                               mkheader (mkslice 0 0 2 2) 5 4 1)))%nat)
    by (simpl; lia).
  split; [exact Hw |]. split; [reflexivity |].
  apply (queries_leave_histogram (fun _ l => rev l)
           ([[mkbin 1 1; mkbin 2 3]], mkheader (mkslice 0 0 2 2) 5 4 1)
           0 0 1 0 Hw).
Defined.

(** * Further properties of the code *)

(** ** [scaleDown] *)

Lemma scaleDown_nth_witness :
  exists b',
    nth_error (scaleDown 0 [mkbin 1 2; mkbin 3 4] (1 # 2)) 1 = Some b' /\
    value b' = 3 /\ count b' == 2.
Proof.
  destruct (scaleDown_nth (1 # 2) 0 [mkbin 1 2; mkbin 3 4] 1 (mkbin 3 4)
              eq_refl) as (b' & Hn & Hv & _ & Hc).
  exists b'. split; [exact Hn |]. split; [exact Hv |].
  rewrite Hc by discriminate. reflexivity.
Defined.

(** ** The three branches of the insertion step of [Add] *)

Lemma decay_spec (a : Q) (b : bin) :
  value (decay a b) = value b /\ count (decay a b) == count b * a.
Proof. split; [reflexivity | apply ewma_zero]. Qed.

Lemma scaleDown_from_split (a : Q) (x : bin) (post : list bin) :
  forall pre i,
    scaleDown_from i (i + length pre) (pre ++ x :: post) a =
    map (decay a) pre ++ x :: map (decay a) post.
Proof.
  assert (G : forall l i k, (k < i)%nat ->
                scaleDown_from i k l a = map (decay a) l).
  { induction l as [| c rest IH]; intros i k Hk; simpl; [reflexivity |].
    destruct (Nat.eqb_spec i k) as [E | E]; [lia |].
    rewrite IH by lia. reflexivity. }
  induction pre as [| c pre IH]; intros i; simpl.
  - rewrite Nat.add_0_r, Nat.eqb_refl. rewrite G by lia. reflexivity.
  - destruct (Nat.eqb_spec i (i + S (length pre))) as [E | E]; [lia |].
    replace (i + S (length pre))%nat with (S i + length pre)%nat by lia.
    rewrite IH. reflexivity.
Qed.

Lemma insert_scan_skip (n : Q) (tail : list bin) :
  forall pre,
    Forall (fun c => value c < n) pre ->
    insert_scan (pre ++ tail) n =
    (pre ++ fst (insert_scan tail n),
     option_map (fun k => (length pre + k)%nat) (snd (insert_scan tail n))).
Proof.
  induction 1 as [| c pre Hc _ IH]; simpl.
  - destruct (insert_scan tail n) as [r [k |]]; reflexivity.
  - destruct (Qeq_bool (value c) n) eqn:E1.
    { apply Qeq_bool_eq in E1. lra. }
    destruct (Qltb n (value c)) eqn:E2.
    { apply Qltb_lt in E2. lra. }
    rewrite IH. simpl.
    destruct (snd (insert_scan tail n)); reflexivity.
Qed.

(** Exact match: when the first bin not below [n] has the value [n], its
    count grows by one, no bin is added, and every other bin is decayed. *)
Theorem insert_decay_match (n a : Q) (pre post : list bin) (b : bin) :
  Forall (fun c => value c < n) pre -> value b == n ->
  insert_decay (pre ++ b :: post) n a =
  map (decay a) pre ++ mkbin (value b) (count b + 1) :: map (decay a) post.
Proof.
  intros Hpre Hb. unfold insert_decay.
  rewrite (insert_scan_skip n (b :: post) pre Hpre). simpl.
  apply Qeq_eq_bool in Hb. rewrite Hb. simpl.
  unfold scaleDown. rewrite Nat.add_0_r.
  apply (scaleDown_from_split a _ post pre 0).
Qed.

Lemma insert_decay_match_witness :
  insert_decay ([mkbin 1 4] ++ mkbin 2 6 :: [mkbin 5 8]) 2 (1 # 2) =
  map (decay (1 # 2)) [mkbin 1 4] ++ mkbin 2 (6 + 1)
    :: map (decay (1 # 2)) [mkbin 5 8].
Proof.
  apply insert_decay_match; [repeat constructor | reflexivity].
Defined.

(** Insertion: when the first bin not below [n] lies above [n], the bin
    [(n, 1)] is put before it, the old bins keep their order and values, and
    every one of them is decayed. *)
Theorem insert_decay_before (n a : Q) (pre post : list bin) (b : bin) :
  Forall (fun c => value c < n) pre -> n < value b ->
  insert_decay (pre ++ b :: post) n a =
  map (decay a) pre ++ mkbin n 1 :: map (decay a) (b :: post).
Proof.
  intros Hpre Hb. unfold insert_decay.
  rewrite (insert_scan_skip n (b :: post) pre Hpre). simpl.
  destruct (Qeq_bool (value b) n) eqn:E1.
  { apply Qeq_bool_eq in E1. lra. }
  apply Qltb_lt in Hb. rewrite Hb. simpl.
  unfold scaleDown. rewrite Nat.add_0_r.
  apply (scaleDown_from_split a _ (b :: post) pre 0).
Qed.

Lemma insert_decay_before_witness :
  insert_decay ([mkbin 1 4] ++ mkbin 3 6 :: [mkbin 5 8]) 2 (1 # 2) =
  map (decay (1 # 2)) [mkbin 1 4] ++ mkbin 2 1
    :: map (decay (1 # 2)) (mkbin 3 6 :: [mkbin 5 8]).
Proof.
  apply insert_decay_before; [repeat constructor | reflexivity].
Defined.

Lemma insert_decay_append_witness :
  insert_decay [mkbin 1 4; mkbin 3 6] 5 (1 # 2) =
  [mkbin 1 4; mkbin 3 6] ++ [mkbin 5 1].
Proof.
  apply insert_decay_append. repeat constructor.
Defined.

(** ** [Add] with room to spare *)



(** ** One pass of the loop of [trim] *)

(** A pass of the loop of [trim] over bins none of whose adjacent gaps is
    below [1e99] panics; this includes the sequences of fewer than two
    bins. *)
Theorem trim_step_panics_without_small_gap (bs : list bin) :
  (forall j, (1 <= j < length bs)%nat -> sentinel_1e99 <= gap bs j) ->
  trim_step bs = None.
Proof.
  intros Hall. unfold trim_step.
  destruct (closest_spec bs) as [(E & _) | (Hc & Hg)].
  - rewrite E. reflexivity.
  - pose proof Hc as (Hk & _). specialize (Hall _ Hk). lra.
Qed.

Lemma trim_step_panics_without_small_gap_witness :
  trim_step [mkbin 0 1; mkbin sentinel_1e99 1; mkbin (3 * sentinel_1e99) 1]
    = None /\
  trim_step [mkbin 7 1] = None.
Proof.
  split; apply trim_step_panics_without_small_gap; intros j Hj; simpl in Hj.
  - assert (j = 1%nat \/ j = 2%nat) as [-> | ->] by lia;
      vm_compute; discriminate.
  - lia.
Defined.




(** ** A histogram without capacity *)

Lemma insert_scan_nonempty (n : Q) (bs : list bin) :
  fst (insert_scan bs n) <> [].
Proof.
  destruct bs as [| b rest]; simpl; [discriminate |].
  destruct (Qeq_bool (value b) n); [| destruct (Qltb n (value b))];
    simpl; try discriminate.
  destruct (insert_scan rest n). simpl. discriminate.
Qed.

Lemma insert_decay_nonempty (n a : Q) (bs : list bin) :
  insert_decay bs n a <> [].
Proof.
  intros E. apply (insert_scan_nonempty n bs).
  pose proof (insert_decay_values n a bs) as Hv. rewrite E in Hv.
  simpl in Hv. symmetry in Hv. now apply map_eq_nil in Hv.
Qed.

Lemma merge_at_nonempty (k : nat) (bs bs' : list bin) :
  merge_at k bs = Some bs' -> bs' <> [].
Proof.
  intros H. apply merge_at_split in H as (pre & b1 & b2 & post & _ & -> & _).
  destruct pre; discriminate.
Qed.

Lemma trim_loop_nonpositive (m : Z) :
  (m <= 0)%Z ->
  forall fuel bs,
    bs <> [] -> (length bs <= S fuel)%nat -> trim_loop fuel bs m = None.
Proof.
  intros Hm. induction fuel as [| f IH]; intros bs Hne Hl;
    destruct bs as [| b rest]; try congruence; cbn [trim_loop];
    destruct (Z.gtb_spec (Z.of_nat (length (b :: rest))) m) as [G | G];
    try (simpl in G; lia).
  - destruct rest; [reflexivity | simpl in Hl; lia].
  - destruct (trim_step (b :: rest)) as [bs1 |] eqn:E; [| reflexivity].
    unfold trim_step in E. apply IH.
    + now apply merge_at_nonempty in E.
    + apply merge_at_length in E. simpl in Hl, E. lia.
Qed.

(** With [maxbins] zero or negative every call of [Add] panics: the loop of
    [trim] merges down to a single bin and then finds no pair to merge. *)
Theorem Add_without_capacity_panics (h : WeightedHistogram) (n : Q) :
  (maxbins h <= 0)%Z -> Add h n = None.
Proof.
  intros Hm. unfold Add, trim. cbn [bins maxbins].
  rewrite (trim_loop_nonpositive (maxbins h) Hm); [reflexivity | | lia].
  apply insert_decay_nonempty.
Qed.

Lemma Add_without_capacity_panics_witness :
  Add (NewWeightedHistogram 0 1) 5 = None.
Proof.
  apply Add_without_capacity_panics. simpl. lia.
Defined.

(** ** What the bins hold after a sequence of calls *)









(** ** Totals without decay *)


(** ** [Variance] *)





(** ** [CDF] *)








(** ** Export and import *)

Lemma bins_of_state_of (h : WeightedHistogram) :
  map (fun v => mkbin (State.Value v) (State.Count v))
      (State.Bins (state_of h)) = bins h.
Proof.
  unfold state_of. cbn [State.Bins]. rewrite map_map.
  rewrite <- (map_id (bins h)) at 2. apply map_ext.
  intros [v c]. reflexivity.
Qed.

(** Round trip: when [json.Marshal] accepts the record of a histogram and
    [json.Unmarshal] gives that record back from the bytes, [MarshalJSON]
    returns those bytes without error and [UnmarshalJSON] of them, into any
    histogram, yields the exported histogram: same bins in the same order,
    same [maxbins], [total] and [alpha]. *)
Theorem MarshalJSON_UnmarshalJSON_round_trip
        (error : Type)
        (json_Marshal : State.histogramState -> list Byte.byte * option error)
        (json_Unmarshal : list Byte.byte -> State.histogramState ->
                          State.histogramState * option error)
        (h h0 : WeightedHistogram) (data : list Byte.byte) :
  json_Marshal (state_of h) = (data, None) ->
  json_Unmarshal data State.zero = (state_of h, None) ->
  MarshalJSON error json_Marshal h = (data, None) /\
  UnmarshalJSON error json_Unmarshal h0 data = (h, None).
Proof.
  intros Hm Hu. split.
  - unfold MarshalJSON. rewrite Hm. reflexivity.
  - unfold UnmarshalJSON. rewrite Hu. rewrite bins_of_state_of.
    destruct h. reflexivity.
Qed.

Lemma MarshalJSON_UnmarshalJSON_round_trip_witness :
  MarshalJSON nat (fun _ => ([Byte.x7b; Byte.x7d], None))
    (mkWH [mkbin 1 2; mkbin 3 4] 5 6 (1 # 2)) =
    ([Byte.x7b; Byte.x7d], None) /\
  UnmarshalJSON nat
    (fun _ _ => (state_of (mkWH [mkbin 1 2; mkbin 3 4] 5 6 (1 # 2)), None))
    (NewWeightedHistogram 9 1) [Byte.x7b; Byte.x7d] =
    (mkWH [mkbin 1 2; mkbin 3 4] 5 6 (1 # 2), None).
Proof.
  apply MarshalJSON_UnmarshalJSON_round_trip; reflexivity.
Defined.

(** ** What [Modes] returns *)

Lemma set_array_same (new : list bin) :
  forall st k, (k < length st)%nat -> nth k (set_array st k new) [] = new.
Proof.
  induction st as [| x rest IH]; intros [| k] H; simpl in *;
    try lia; [reflexivity |].
  apply IH. lia.
Qed.

Lemma nth_last_array (st : store) (x : list bin) :
  nth (length st) (st ++ [x]) [] = x.
Proof. rewrite app_nth2 by lia. now rewrite Nat.sub_diag. Qed.

(** The slice [tmp] of [Modes] after [sort.Slice] holds the bins of the
    histogram in the order [sort.Slice] leaves them. *)
Lemma Modes_sorted_copy
      (sort_Slice : (bin -> bin -> bool) -> list bin -> list bin)
      (st : store) (s : slice) :
  (arr s < length st)%nat ->
  length (sort_Slice modes_less (contents st s)) = length (contents st s) ->
  let (tmp, st2) :=
    append (fst (make_empty st)) (contents (snd (make_empty st)) s)
           (snd (make_empty st)) in
  contents (sort_in_place sort_Slice tmp modes_less st2) tmp =
  sort_Slice modes_less (contents st s).
Proof.
  intros Hw Hlen. unfold make_empty. cbn [fst snd].
  assert (Ex : contents (st ++ [[]]) s = contents st s).
  { apply contents_same. now apply app_nth1. }
  rewrite Ex. set (xs := contents st s) in *.
  unfold append. cbn [len cap arr off].
  destruct (Nat.leb_spec (0 + length xs) 0) as [L | L].
  - assert (Hxs : xs = []) by (destruct xs; [reflexivity | simpl in L; lia]).
    rewrite Hxs in *. simpl in Hlen.
    destruct (sort_Slice modes_less []) as [| ? ?] eqn:Es;
      [| simpl in Hlen; discriminate].
    unfold contents at 1. cbn [len]. reflexivity.
  - assert (Hc0 : contents (st ++ [[]]) (mkslice (length st) 0 0 0) = [])
      by reflexivity.
    rewrite Hc0. cbn [app].
    set (tmp := mkslice (length (st ++ [[]])) 0 (0 + length xs)
                        (0 + length xs)).
    set (st2 := (st ++ [[]]) ++ [xs]).
    assert (Hc2 : contents st2 tmp = xs).
    { unfold contents, tmp, st2. cbn [arr off len].
      rewrite nth_last_array. cbn [skipn]. apply firstn_all. }
    unfold sort_in_place. rewrite Hc2.
    unfold contents at 1. cbn [arr off len].
    rewrite set_array_same.
    + unfold tmp, st2. cbn [arr off len].
      rewrite nth_last_array. unfold write_at. cbn [firstn app skipn Nat.add].
      rewrite Hlen, skipn_all, app_nil_r. rewrite <- Hlen. apply firstn_all.
    + unfold tmp, st2. cbn [arr]. rewrite (length_app (st ++ [[]])).
      simpl. lia.
Qed.

(** When [sort.Slice] leaves a permutation of the slice, [Modes(n)] returns
    nothing if [total] is zero and otherwise the values of the first
    [min(n, BinsCount())] bins in the order [sort.Slice] left the copy: so
    many values, each the value of a stored bin; a negative [n] counts as
    zero. *)
Theorem Modes_returns_bin_values
        (sort_Slice : (bin -> bin -> bool) -> list bin -> list bin)
        (n : Z) (m : memory) :
  (arr (hbins (snd m)) < length (fst m))%nat ->
  (forall l, Permutation (sort_Slice modes_less l) l) ->
  fst (Modes sort_Slice n m) =
    (if (htotal (snd m) =? 0)%Z then []
     else map value (firstn (Z.to_nat n)
                            (sort_Slice modes_less (bins (abstract m))))) /\
  (htotal (snd m) <> 0%Z ->
   length (fst (Modes sort_Slice n m)) =
   Nat.min (Z.to_nat n) (length (bins (abstract m)))) /\
  (forall v, In v (fst (Modes sort_Slice n m)) ->
             In v (map value (bins (abstract m)))).
Proof.
  intros Hw Hperm. destruct m as [st hd]. cbn [fst snd abstract bins] in *.
  assert (Heq :
    fst (Modes sort_Slice n (st, hd)) =
    (if (htotal hd =? 0)%Z then []
     else map value (firstn (Z.to_nat n)
                       (sort_Slice modes_less (contents st (hbins hd)))))).
  { unfold Modes. destruct (htotal hd =? 0)%Z; [reflexivity |].
    pose proof (Modes_sorted_copy sort_Slice st (hbins hd) Hw
                  (Permutation_length (Hperm _))) as Hc.
    destruct (make_empty st) as [tmp0 st1]. cbn [fst snd] in Hc.
    destruct (append tmp0 (contents st1 (hbins hd)) st1) as [tmp st2].
    cbn [fst]. unfold modes_values. now rewrite Hc. }
  split; [exact Heq |]. split.
  - intros Hz. rewrite Heq. apply Z.eqb_neq in Hz. rewrite Hz.
    rewrite length_map, length_firstn.
    now rewrite (Permutation_length (Hperm _)).
  - intros v Hv. rewrite Heq in Hv.
    destruct (htotal hd =? 0)%Z; [contradiction |].
    apply in_map_iff in Hv as (b & <- & Hb). apply in_map.
    apply (Permutation_in b (Hperm _)).
    rewrite <- (firstn_skipn (Z.to_nat n)). apply in_or_app. now left.
Qed.

Lemma Modes_returns_bin_values_witness :
  fst (Modes (fun _ l => rev l) 1
         ([[mkbin 1 1; mkbin 2 3]], mkheader (mkslice 0 0 2 2) 5 4 1)) =
  map value (firstn 1 (rev [mkbin 1 1; mkbin 2 3])).
Proof.
  destruct (Modes_returns_bin_values (fun _ l => rev l) 1
              ([[mkbin 1 1; mkbin 2 3]], mkheader (mkslice 0 0 2 2) 5 4 1))
    as (Heq & _).
  - simpl. lia.
  - intros l. apply Permutation_sym, Permutation_rev.
  - exact Heq.
Defined.

(** ** [trim] on any histogram *)

(** On any histogram, reachable by [Add] or not (an imported state may hold
    more bins than [maxbins]), a call of [trim] that returns leaves at most
    [maxbins] bins and no more bins than there were, keeps [maxbins] and
    [alpha], and changes no bin when the budget already held. *)
Theorem trim_within_budget (h h' : WeightedHistogram) :
  trim h = Some h' ->
  (BinsCount h' <= maxbins h)%Z /\
  (length (bins h') <= length (bins h))%nat /\
  maxbins h' = maxbins h /\ alpha h' = alpha h /\
  ((BinsCount h <= maxbins h)%Z -> bins h' = bins h).
Proof.
  unfold trim, BinsCount.
  destruct (trim_loop (length (bins h)) (bins h) (maxbins h)) as [bs |] eqn:E;
    [| discriminate].
  intros H. injection H as <-. cbn [bins maxbins total alpha].
  split; [apply (trim_loop_budget _ _ _ _ (Nat.le_refl _) E) |].
  split.
  - apply (trim_loop_preserves
             (fun l => (length l <= length (bins h))%nat) (maxbins h))
      with (fuel := length (bins h)) (bs := bins h); [| lia | exact E].
    intros k l l' Hl Hm. apply merge_at_length in Hm. lia.
  - split; [reflexivity |]. split; [reflexivity |].
    intros Hb. rewrite trim_loop_within in E by exact Hb. congruence.
Qed.

Lemma trim_within_budget_witness :
  exists h',
    trim (mkWH [mkbin 0 1; mkbin 4 1; mkbin 5 2; mkbin 6 1] 2 0 1) = Some h' /\
    (BinsCount h' <= 2)%Z.
Proof.
  eexists. split; [vm_compute; reflexivity |].
  match goal with
  | |- (BinsCount ?h' <= _)%Z =>
      destruct (trim_within_budget
                  (mkWH [mkbin 0 1; mkbin 4 1; mkbin 5 2; mkbin 6 1] 2 0 1) h')
        as (Hb & _); [vm_compute; reflexivity |]
  end.
  exact Hb.
Defined.

(** * Evaluations over binary64 *)

Module F64Facts.

Import PrimFloat.
Local Open Scope float_scope.




(** After a merge the truncated sum of the bins left can differ from
    [total]: with two bins at most and [alpha = 1 - 2^-53] the calls [Add]
    of 9007199254740988, 9007199254740987 and 9007199254740981 give
    [total = 3], taken before the merge, and leave counts whose sum,
    [2.9999999999999996], truncates to [2]. *)
Remark total_is_taken_before_merge :
  exists h,
    F64.run (F64.NewWeightedHistogram 2 0x1.fffffffffffffp-1)
      [9007199254740988; 9007199254740987; 9007199254740981] = Some h /\
    F64.total h = 3%Z /\
    F64.int64_of_float (F64.total_loop (F64.bins h) 0) = 2%Z.
Proof.
  eexists. split; [vm_compute; reflexivity |].
  split; vm_compute; reflexivity.
Qed.


End F64Facts.
